(** * Shallow embedding of src/src/auth.rs (tidal-wrapper)

    The credential holder [TidalCredentials], the session record [Session],
    the error enum [AuthError], and the session exchanger
    [Session::get_session] / [Session::fetch_session_data].

    The HTTP transport (reqwest) is outside the repository: it is a section
    variable [send], so every theorem holds for every transport behaviour.
    The body of a response is given as the outcome of reading it and
    parsing it as JSON; the deserialisation into [Session] follows what
    [#[derive(Deserialize)] #[serde(rename_all = "camelCase")]] generates.
    Effects are the [log] crate's diagnostics and [panic!], threaded through
    a small monad [M]. *)

From stdpp Require Import base gmap strings list.
From Stdlib Require Import ZArith String.

Local Set Warnings "-register-all".
Local Open Scope string_scope.
Local Open Scope Z_scope.
Local Open Scope list_scope.

(** ** Rust [Result] *)

Inductive result (A E : Type) : Type :=
| Ok (a : A)
| Err (e : E).
Arguments Ok {A E} a.
Arguments Err {A E} e.

(** [Result::ok] *)
Definition result_ok {A E} (r : result A E) : option A :=
  match r with Ok a => Some a | Err _ => None end.

(** ** JSON values and serde errors *)

Inductive json : Type :=
| JNull
| JBool (b : bool)
| JInt (z : Z)
| JStr (s : string)
| JArr (l : list json)
| JObj (fields : list (string * json)).

Inductive serde_error : Type :=
| SyntaxError
| TrailingCharacters
| InvalidType
| InvalidValue
| InvalidLength (n : nat)
| MissingField (f : string)
| DuplicateField (f : string).

(** ** reqwest errors and responses *)

Inductive transport_kind : Type :=
| ConnectionRefused
| Timeout
| TlsError
| MalformedFraming
| BuilderError
| BodyReadError.

(** [reqwest::Error]: a transport error, or a decode error raised by
    [Response::json]. *)
Inductive reqwest_error : Type :=
| TransportError (k : transport_kind)
| DecodeError (e : serde_error).

(** The body of a response, as [Response::json] finds it. *)
Inductive body : Type :=
| BodyJson (j : json)
| BodyInvalidJson
| BodyReadFailed (k : transport_kind).

Record response : Type := {
  resp_status : Z;
  resp_url : string;
  resp_body : body
}.

(** [StatusCode::is_success]: 200..=299. *)
Definition is_success (status : Z) : bool :=
  (200 <=? status) && (status <? 300).

(** An outgoing request: [client.post(url).query(&query).form(&payload)]. *)
Record request : Type := {
  req_method : string;
  req_url : string;
  req_query : list (string * string);
  req_form : gmap string string
}.

(** ** Data model *)

Definition i32_min : Z := - 2 ^ 31.
Definition i32_max : Z := 2 ^ 31 - 1.
Definition in_i32 (z : Z) : bool := (i32_min <=? z) && (z <=? i32_max).

(** [pub struct Session { user_id: i32, session_id: String, country_code: String }] *)
Record Session : Type := {
  user_id : Z;
  session_id : string;
  country_code : string
}.

(** A [Session] value as the Rust type admits it: [user_id] is an [i32]. *)
Definition session_wf (s : Session) : bool := in_i32 (user_id s).

(** [pub struct TidalCredentials { token: String, session: Option<Session> }] *)
Record TidalCredentials : Type := {
  token : string;
  session : option Session
}.

(** [pub enum AuthError] *)
Inductive AuthError : Type :=
| AuthRequestFailed (source : reqwest_error)
| CreateSessionFailed.

(** ** serde for [Session] with [rename_all = "camelCase"] *)

(** [Serialize] *)
Definition serialize_session (s : Session) : json :=
  JObj [("userId", JInt (user_id s));
        ("sessionId", JStr (session_id s));
        ("countryCode", JStr (country_code s))].

(** [i32::deserialize] from a JSON value. *)
Definition deserialize_i32 (v : json) : result Z serde_error :=
  match v with
  | JInt z => if in_i32 z then Ok z else Err InvalidValue
  | _ => Err InvalidType
  end.

(** [String::deserialize] from a JSON value. *)
Definition deserialize_string (v : json) : result string serde_error :=
  match v with
  | JStr s => Ok s
  | _ => Err InvalidType
  end.

(** The derived [visit_map]: fields are read in order, a repeated field is
    an error, an unknown key is ignored, a missing field is an error
    (checked in declaration order). *)
Fixpoint visit_map (fs : list (string * json))
    (uid : option Z) (sid cc : option string) : result Session serde_error :=
  match fs with
  | [] =>
      match uid with
      | None => Err (MissingField "userId")
      | Some u =>
          match sid with
          | None => Err (MissingField "sessionId")
          | Some s =>
              match cc with
              | None => Err (MissingField "countryCode")
              | Some c => Ok {| user_id := u; session_id := s; country_code := c |}
              end
          end
      end
  | (k, v) :: rest =>
      if String.eqb k "userId" then
        match uid with
        | Some _ => Err (DuplicateField "userId")
        | None =>
            match deserialize_i32 v with
            | Ok u => visit_map rest (Some u) sid cc
            | Err e => Err e
            end
        end
      else if String.eqb k "sessionId" then
        match sid with
        | Some _ => Err (DuplicateField "sessionId")
        | None =>
            match deserialize_string v with
            | Ok s => visit_map rest uid (Some s) cc
            | Err e => Err e
            end
        end
      else if String.eqb k "countryCode" then
        match cc with
        | Some _ => Err (DuplicateField "countryCode")
        | None =>
            match deserialize_string v with
            | Ok c => visit_map rest uid sid (Some c)
            | Err e => Err e
            end
        end
      else visit_map rest uid sid cc
  end.

(** The derived [visit_seq], followed by serde_json's end-of-sequence check. *)
Definition visit_seq (l : list json) : result Session serde_error :=
  match l with
  | [] => Err (InvalidLength 0)
  | a :: l1 =>
      match deserialize_i32 a with
      | Err e => Err e
      | Ok u =>
          match l1 with
          | [] => Err (InvalidLength 1)
          | b :: l2 =>
              match deserialize_string b with
              | Err e => Err e
              | Ok s =>
                  match l2 with
                  | [] => Err (InvalidLength 2)
                  | c :: l3 =>
                      match deserialize_string c with
                      | Err e => Err e
                      | Ok cc =>
                          match l3 with
                          | [] => Ok {| user_id := u; session_id := s; country_code := cc |}
                          | _ :: _ => Err TrailingCharacters
                          end
                      end
                  end
              end
          end
      end
  end.

(** [Session::deserialize] through serde_json's [deserialize_struct]. *)
Definition deserialize_session (j : json) : result Session serde_error :=
  match j with
  | JObj fs => visit_map fs None None None
  | JArr l => visit_seq l
  | _ => Err InvalidType
  end.

(** [Response::json::<Session>] *)
Definition response_json (r : response) : result Session reqwest_error :=
  match resp_body r with
  | BodyJson j =>
      match deserialize_session j with
      | Ok s => Ok s
      | Err e => Err (DecodeError e)
      end
  | BodyInvalidJson => Err (DecodeError SyntaxError)
  | BodyReadFailed k => Err (TransportError k)
  end.

(** ** Effects: diagnostics of the [log] crate and [panic!] *)

(** What is logged. The [Debug] output of a [reqwest::Response] shows its
    url and status (and headers), not its body. *)
Inductive log_entry : Type :=
| LogDebugResponse (status : Z) (url : string)
| LogErrorCreateSession (token : string) (form : gmap string string)
| LogErrorResponse (status : Z) (url : string).

Inductive outcome (A : Type) : Type :=
| Returned (a : A) (log : list log_entry)
| Panicked (msg : string) (log : list log_entry).
Arguments Returned {A} a log.
Arguments Panicked {A} msg log.

Definition M (A : Type) : Type := list log_entry -> outcome A.

Global Instance M_ret : MRet M := fun A a lg => Returned a lg.
Global Instance M_bind : MBind M := fun A B f m lg =>
  match m lg with
  | Returned a lg' => f a lg'
  | Panicked msg lg' => Panicked msg lg'
  end.

Definition emit (e : log_entry) : M unit := fun lg => Returned tt (lg ++ [e]).
Definition panic {A} (msg : string) : M A := fun lg => Panicked msg lg.

(** ** The credential holder *)

(** [String::is_empty] *)
Definition is_empty (s : string) : bool := Nat.eqb (String.length s) 0.

Definition login_url : string := "https://api.tidalhifi.com/v1/login/username".

Module Session.
Section Exchanger.

(** The transport: [RequestBuilder::send().await]. *)
Variable send : request -> result response reqwest_error.

Definition login_request (token : string) (payload : gmap string string) : request :=
  {| req_method := "POST"; req_url := login_url;
     req_query := [("token", token)]; req_form := payload |}.

(** [async fn fetch_session_data(token, payload) -> Result<Self, AuthError>] *)
Definition fetch_session_data (token : string) (payload : gmap string string)
    : M (result Session AuthError) :=
  match send (login_request token payload) with
  | Err e => mret (Err (AuthRequestFailed e))
  | Ok response =>
      if is_success (resp_status response) then
        emit (LogDebugResponse (resp_status response) (resp_url response)) ;;
        match response_json response with
        | Err e => mret (Err (AuthRequestFailed e))
        | Ok session => mret (Ok session)
        end
      else
        emit (LogErrorCreateSession token payload) ;;
        emit (LogErrorResponse (resp_status response) (resp_url response)) ;;
        mret (Err CreateSessionFailed)
  end.

(** [pub async fn get_session(token, username, password)] *)
Definition get_session (token username password : string)
    : M (result Session AuthError) :=
  let payload : gmap string string :=
    <["password" := password]> (<["username" := username]> ∅) in
  fetch_session_data token payload.

End Exchanger.
End Session.

Module TidalCredentials.

(** [pub fn new(token: &str) -> Self] *)
Definition new (t : string) : TidalCredentials :=
  {| token := t; session := None |}.

(** [pub fn session(mut self, session: Option<Session>) -> Self] *)
Definition session (self : TidalCredentials) (s : option Session) : TidalCredentials :=
  {| token := token self; session := s |}.

(** [pub async fn create_session(self, username, password) -> Self] *)
Definition create_session (send : request -> result response reqwest_error)
    (self : TidalCredentials) (username password : string) : M TidalCredentials :=
  if is_empty (token self) then panic "Application Token needs to be set"
  else
    let t := token self in
    s ← Session.get_session send t username password;
    mret (session self (result_ok s)).

End TidalCredentials.

(** ** Test fixtures (the mockito mocks of the crate's tests) *)

Definition success_body : json :=
  JObj [("userId", JInt 123); ("sessionId", JStr "session-id-123");
        ("countryCode", JStr "US")].

Definition failure_body : json :=
  JObj [("status", JInt 401); ("subStatus", JInt 3001);
        ("userMessage", JStr "Invalid credentials")].

Definition mock_login (status : Z) (b : json) : request -> result response reqwest_error :=
  fun _ => Ok {| resp_status := status; resp_url := "http://127.0.0.1:1234/?token=some_token";
                 resp_body := BodyJson b |}.

Definition mock_refused : request -> result response reqwest_error :=
  fun _ => Err (TransportError ConnectionRefused).

Example ex_success :
  TidalCredentials.create_session (mock_login 200 success_body)
    (TidalCredentials.new "some_token") "myuser@example.com" "somepawssowrd" []
  = Returned {| token := "some_token";
                session := Some {| user_id := 123; session_id := "session-id-123";
                                   country_code := "US" |} |}
             [LogDebugResponse 200 "http://127.0.0.1:1234/?token=some_token"].
Proof. reflexivity. Qed.

Example ex_failure :
  exists lg, TidalCredentials.create_session (mock_login 401 failure_body)
    (TidalCredentials.new "some_token") "myuser@example.com" "somepawssowrd" []
  = Returned {| token := "some_token"; session := None |} lg.
Proof. eexists. vm_compute. reflexivity. Qed.

(** ** Reading a JSON object's field (first occurrence) *)

Fixpoint assoc (k : string) (fs : list (string * json)) : option json :=
  match fs with
  | [] => None
  | (k', v) :: rest => if String.eqb k' k then Some v else assoc k rest
  end.

(** The fields of a [Session] come from the JSON value [j] it was decoded
    from: the three keys of an object, or the three elements of an array. *)
Definition populated_from (j : json) (s : Session) : Prop :=
  match j with
  | JObj fs =>
      assoc "userId" fs = Some (JInt (user_id s)) /\
      assoc "sessionId" fs = Some (JStr (session_id s)) /\
      assoc "countryCode" fs = Some (JStr (country_code s))
  | JArr l => l = [JInt (user_id s); JStr (session_id s); JStr (country_code s)]
  | _ => False
  end.

(** All values given to key [k] in a JSON object, in order. *)
Definition values_of (k : string) (fs : list (string * json)) : list json :=
  map snd (List.filter (fun p => String.eqb (fst p) k) fs).

(** The form built by [Session::get_session]:
    [payload.insert("username", username); payload.insert("password", password)]. *)
Definition login_form (username password : string) : gmap string string :=
  <["password" := password]> (<["username" := username]> ∅).

(** ** serde for [TidalCredentials] (derived, no renaming) *)

(** [Option::<T>::serialize] *)
Definition serialize_option {A} (f : A -> json) (o : option A) : json :=
  match o with None => JNull | Some a => f a end.

Definition serialize_credentials (c : TidalCredentials) : json :=
  JObj [("token", JStr (token c));
        ("session", serialize_option serialize_session (session c))].

(** [Option::<Session>::deserialize] through serde_json's [deserialize_option]. *)
Definition deserialize_option_session (j : json) : result (option Session) serde_error :=
  match j with
  | JNull => Ok None
  | _ =>
      match deserialize_session j with
      | Ok s => Ok (Some s)
      | Err e => Err e
      end
  end.

(** The derived [visit_map] of [TidalCredentials]: a missing [Option] field
    is [None], a missing [String] field is an error. *)
Fixpoint visit_map_credentials (fs : list (string * json))
    (tok : option string) (sess : option (option Session))
    : result TidalCredentials serde_error :=
  match fs with
  | [] =>
      match tok with
      | None => Err (MissingField "token")
      | Some t =>
          match sess with
          | None => Ok {| token := t; session := None |}
          | Some s => Ok {| token := t; session := s |}
          end
      end
  | (k, v) :: rest =>
      if String.eqb k "token" then
        match tok with
        | Some _ => Err (DuplicateField "token")
        | None =>
            match deserialize_string v with
            | Ok t => visit_map_credentials rest (Some t) sess
            | Err e => Err e
            end
        end
      else if String.eqb k "session" then
        match sess with
        | Some _ => Err (DuplicateField "session")
        | None =>
            match deserialize_option_session v with
            | Ok s => visit_map_credentials rest tok (Some s)
            | Err e => Err e
            end
        end
      else visit_map_credentials rest tok sess
  end.

(** The derived [visit_seq] of [TidalCredentials] and serde_json's
    end-of-sequence check. *)
Definition visit_seq_credentials (l : list json) : result TidalCredentials serde_error :=
  match l with
  | [] => Err (InvalidLength 0)
  | a :: l1 =>
      match deserialize_string a with
      | Err e => Err e
      | Ok t =>
          match l1 with
          | [] => Err (InvalidLength 1)
          | b :: l2 =>
              match deserialize_option_session b with
              | Err e => Err e
              | Ok s =>
                  match l2 with
                  | [] => Ok {| token := t; session := s |}
                  | _ :: _ => Err TrailingCharacters
                  end
              end
          end
      end
  end.

Definition deserialize_credentials (j : json) : result TidalCredentials serde_error :=
  match j with
  | JObj fs => visit_map_credentials fs None None
  | JArr l => visit_seq_credentials l
  | _ => Err InvalidType
  end.

(** A [TidalCredentials] value as the Rust types admit it. *)
Definition credentials_wf (c : TidalCredentials) : bool :=
  match session c with None => true | Some s => session_wf s end.

(** What [visit_map] needs of the values found for one field, given what
    its accumulator already holds: a single well-typed value if it is
    empty, none if it is full. *)
Definition acc_i32 (u : option Z) (vs : list json) (x : Z) : Prop :=
  match u with
  | None => vs = [JInt x] /\ in_i32 x = true
  | Some y => vs = [] /\ y = x
  end.

Definition acc_string (o : option string) (vs : list json) (x : string) : Prop :=
  match o with
  | None => vs = [JStr x]
  | Some y => vs = [] /\ y = x
  end.

(** ** Lemmas on the monad and the exchanger *)

Ltac run_M := unfold mbind, M_bind, mret, M_ret, emit, panic; simpl.

Lemma is_empty_true (s : string) : is_empty s = true <-> s = "".
Proof. destruct s; cbn; split; intros H; solve [reflexivity | discriminate H]. Qed.

Lemma is_empty_false (s : string) : s <> "" -> is_empty s = false.
Proof.
  intros H. destruct (is_empty s) eqn:E; [|reflexivity].
  apply is_empty_true in E. contradiction.
Qed.

Lemma fetch_send_err send tok payload lg e :
  send (Session.login_request tok payload) = Err e ->
  Session.fetch_session_data send tok payload lg = Returned (Err (AuthRequestFailed e)) lg.
Proof. intros H. unfold Session.fetch_session_data. rewrite H. reflexivity. Qed.

Lemma fetch_2xx send tok payload lg r :
  send (Session.login_request tok payload) = Ok r ->
  is_success (resp_status r) = true ->
  Session.fetch_session_data send tok payload lg =
  Returned (match response_json r with
            | Ok s => Ok s
            | Err e => Err (AuthRequestFailed e)
            end) (lg ++ [LogDebugResponse (resp_status r) (resp_url r)]).
Proof.
  intros H1 H2. unfold Session.fetch_session_data. rewrite H1, H2. run_M.
  destruct (response_json r); reflexivity.
Qed.

Lemma fetch_non_2xx send tok payload lg r :
  send (Session.login_request tok payload) = Ok r ->
  is_success (resp_status r) = false ->
  Session.fetch_session_data send tok payload lg =
  Returned (Err CreateSessionFailed)
    (lg ++ [LogErrorCreateSession tok payload;
            LogErrorResponse (resp_status r) (resp_url r)]).
Proof.
  intros H1 H2. unfold Session.fetch_session_data. rewrite H1, H2. run_M.
  rewrite <- app_assoc. reflexivity.
Qed.

Lemma fetch_returns send tok payload lg :
  exists o lg', Session.fetch_session_data send tok payload lg = Returned o lg'.
Proof.
  destruct (send (Session.login_request tok payload)) as [r|e] eqn:Hs.
  - destruct (is_success (resp_status r)) eqn:Hok.
    + erewrite fetch_2xx by eauto. eauto.
    + erewrite fetch_non_2xx by eauto. eauto.
  - erewrite fetch_send_err by eauto. eauto.
Qed.

Lemma create_session_nonempty send c username password lg :
  token c <> "" ->
  TidalCredentials.create_session send c username password lg =
  match Session.get_session send (token c) username password lg with
  | Returned r lg' => Returned (TidalCredentials.session c (result_ok r)) lg'
  | Panicked m lg' => Panicked m lg'
  end.
Proof.
  intros H. unfold TidalCredentials.create_session.
  rewrite (is_empty_false _ H). reflexivity.
Qed.

Lemma create_session_returns send c username password lg :
  token c <> "" ->
  exists r lg',
    Session.get_session send (token c) username password lg = Returned r lg' /\
    TidalCredentials.create_session send c username password lg =
    Returned (TidalCredentials.session c (result_ok r)) lg'.
Proof.
  intros H. rewrite create_session_nonempty by exact H.
  unfold Session.get_session.
  destruct (fetch_returns send (token c)
              (<["password" := password]> (<["username" := username]> ∅)) lg)
    as (o & lg' & Ho).
  rewrite Ho. eauto.
Qed.

(** ** Lemmas on the derived deserialiser *)

Lemma deserialize_i32_ok v u :
  deserialize_i32 v = Ok u -> v = JInt u /\ in_i32 u = true.
Proof.
  destruct v; simpl; try discriminate.
  destruct (in_i32 z) eqn:E; intros H; inversion H; subst; auto.
Qed.

Lemma deserialize_string_ok v s :
  deserialize_string v = Ok s -> v = JStr s.
Proof. destruct v; simpl; try discriminate. intros H; inversion H; reflexivity. Qed.

(** One step of [visit_map] on a key other than [k] leaves [assoc k] alone. *)
Lemma assoc_skip k k' v rest :
  k' <> k -> assoc k ((k', v) :: rest) = assoc k rest.
Proof. intros H. simpl. destruct (String.eqb_spec k' k); congruence. Qed.

Lemma visit_map_userId fs :
  forall u sid cc s, visit_map fs u sid cc = Ok s ->
  (u = None /\ assoc "userId" fs = Some (JInt (user_id s)) /\ in_i32 (user_id s) = true)
  \/ u = Some (user_id s).
Proof.
  induction fs as [|[k v] rest IH]; intros u sid cc s H.
  - destruct u, sid, cc; simpl in H; try discriminate.
    inversion H; subst; simpl; auto.
  - simpl in H.
    destruct (String.eqb_spec k "userId") as [->|Hk].
    + destruct u; [discriminate|].
      destruct (deserialize_i32 v) as [x|] eqn:Hv; [|discriminate].
      apply deserialize_i32_ok in Hv as [-> Hx].
      destruct (IH _ _ _ _ H) as [(? & _)|Hs]; [discriminate|].
      inversion Hs; subst. left. simpl. auto.
    + rewrite assoc_skip by exact Hk.
      destruct (String.eqb_spec k "sessionId").
      * destruct sid; [discriminate|].
        destruct (deserialize_string v); [|discriminate]. eauto.
      * destruct (String.eqb_spec k "countryCode").
        -- destruct cc; [discriminate|].
           destruct (deserialize_string v); [|discriminate]. eauto.
        -- eauto.
Qed.

Lemma visit_map_sessionId fs :
  forall u sid cc s, visit_map fs u sid cc = Ok s ->
  (sid = None /\ assoc "sessionId" fs = Some (JStr (session_id s)))
  \/ sid = Some (session_id s).
Proof.
  induction fs as [|[k v] rest IH]; intros u sid cc s H.
  - destruct u, sid, cc; simpl in H; try discriminate.
    inversion H; subst; simpl; auto.
  - simpl in H.
    destruct (String.eqb_spec k "userId") as [->|Hk].
    + rewrite assoc_skip by discriminate.
      destruct u; [discriminate|].
      destruct (deserialize_i32 v); [|discriminate]. eauto.
    + destruct (String.eqb_spec k "sessionId") as [->|Hk'].
      * destruct sid; [discriminate|].
        destruct (deserialize_string v) as [x|] eqn:Hv; [|discriminate].
        apply deserialize_string_ok in Hv as ->.
        destruct (IH _ _ _ _ H) as [(? & _)|Hs]; [discriminate|].
        inversion Hs; subst. left. simpl. auto.
      * rewrite assoc_skip by exact Hk'.
        destruct (String.eqb_spec k "countryCode").
        -- destruct cc; [discriminate|].
           destruct (deserialize_string v); [|discriminate]. eauto.
        -- eauto.
Qed.

Lemma visit_map_countryCode fs :
  forall u sid cc s, visit_map fs u sid cc = Ok s ->
  (cc = None /\ assoc "countryCode" fs = Some (JStr (country_code s)))
  \/ cc = Some (country_code s).
Proof.
  induction fs as [|[k v] rest IH]; intros u sid cc s H.
  - destruct u, sid, cc; simpl in H; try discriminate.
    inversion H; subst; simpl; auto.
  - simpl in H.
    destruct (String.eqb_spec k "userId") as [->|Hk].
    + rewrite assoc_skip by discriminate.
      destruct u; [discriminate|].
      destruct (deserialize_i32 v); [|discriminate]. eauto.
    + destruct (String.eqb_spec k "sessionId") as [->|Hk'].
      * rewrite assoc_skip by discriminate.
        destruct sid; [discriminate|].
        destruct (deserialize_string v); [|discriminate]. eauto.
      * destruct (String.eqb_spec k "countryCode") as [->|Hk''].
        -- destruct cc; [discriminate|].
           destruct (deserialize_string v) as [x|] eqn:Hv; [|discriminate].
           apply deserialize_string_ok in Hv as ->.
           destruct (IH _ _ _ _ H) as [(? & _)|Hs]; [discriminate|].
           inversion Hs; subst. left. simpl. auto.
        -- rewrite assoc_skip by exact Hk''. eauto.
Qed.

Lemma visit_seq_ok l s :
  visit_seq l = Ok s ->
  l = [JInt (user_id s); JStr (session_id s); JStr (country_code s)] /\
  in_i32 (user_id s) = true.
Proof.
  destruct l as [|a [|b [|c [|d l]]]]; simpl; try discriminate;
    destruct (deserialize_i32 a) as [u|] eqn:Ha; try discriminate;
    try (destruct (deserialize_string b) as [x|] eqn:Hb; try discriminate);
    try (destruct (deserialize_string c) as [y|] eqn:Hc; try discriminate).
  intros H; inversion H; subst; simpl.
  apply deserialize_i32_ok in Ha as [-> Hu].
  apply deserialize_string_ok in Hb as ->.
  apply deserialize_string_ok in Hc as ->. auto.
Qed.

Lemma deserialize_session_ok j s :
  deserialize_session j = Ok s -> populated_from j s /\ session_wf s = true.
Proof.
  destruct j as [| | | |l|fs]; simpl; try discriminate.
  - intros H. apply visit_seq_ok in H as [-> Hu]. simpl. auto.
  - intros H.
    destruct (visit_map_userId _ _ _ _ _ H) as [(_ & Hu & Hw)|]; [|discriminate].
    destruct (visit_map_sessionId _ _ _ _ _ H) as [(_ & Hs)|]; [|discriminate].
    destruct (visit_map_countryCode _ _ _ _ _ H) as [(_ & Hc)|]; [|discriminate].
    unfold session_wf. auto.
Qed.

(** A JSON object written with the three renamed keys decodes to the
    corresponding [Session]. *)
Lemma deserialize_session_fields u sid cc :
  in_i32 u = true ->
  deserialize_session
    (JObj [("userId", JInt u); ("sessionId", JStr sid); ("countryCode", JStr cc)])
  = Ok {| user_id := u; session_id := sid; country_code := cc |}.
Proof. intros H. simpl. rewrite H. reflexivity. Qed.

(** ** Claims *)

(** C1: on a non-empty token, when the exchanger fails with any
    [AuthError], [create_session] returns normally, with the session absent
    and no error value. *)
Theorem create_session_swallows_errors send c username password lg e lg' :
  token c <> "" ->
  Session.get_session send (token c) username password lg = Returned (Err e) lg' ->
  TidalCredentials.create_session send c username password lg =
  Returned {| token := token c; session := None |} lg'.
Proof.
  intros Ht Hg. rewrite create_session_nonempty by exact Ht.
  rewrite Hg. reflexivity.
Qed.

Lemma create_session_swallows_errors_witness :
  "some_token" <> "" /\
  Session.get_session mock_refused "some_token" "myuser@example.com" "pw" []
    = Returned (Err (AuthRequestFailed (TransportError ConnectionRefused))) [] /\
  TidalCredentials.create_session mock_refused (TidalCredentials.new "some_token")
    "myuser@example.com" "pw" []
  = Returned {| token := "some_token"; session := None |} [].
Proof.
  split; [discriminate|]. split; [reflexivity|].
  apply (create_session_swallows_errors mock_refused (TidalCredentials.new "some_token")
           "myuser@example.com" "pw" [] (AuthRequestFailed (TransportError ConnectionRefused)) []).
  - discriminate.
  - reflexivity.
Defined.

(** C2: with an empty token [create_session] panics and returns no value;
    with a non-empty token it never panics. *)
Theorem create_session_empty_token_panics send c username password lg :
  (token c = "" ->
   TidalCredentials.create_session send c username password lg =
   Panicked "Application Token needs to be set" lg) /\
  (token c <> "" ->
   exists c' lg', TidalCredentials.create_session send c username password lg =
                  Returned c' lg').
Proof.
  split.
  - intros H. unfold TidalCredentials.create_session.
    apply is_empty_true in H. rewrite H. reflexivity.
  - intros H. destruct (create_session_returns send c username password lg H)
      as (r & lg' & _ & Hc). eauto.
Qed.

Lemma create_session_empty_token_panics_witness :
  TidalCredentials.create_session mock_refused (TidalCredentials.new "")
    "myuser@example.com" "pw" []
  = Panicked "Application Token needs to be set" [] /\
  exists c' lg', TidalCredentials.create_session mock_refused
    (TidalCredentials.new "some_token") "myuser@example.com" "pw" [] = Returned c' lg'.
Proof.
  split.
  - apply (create_session_empty_token_panics mock_refused (TidalCredentials.new "")
             "myuser@example.com" "pw" []). reflexivity.
  - apply (create_session_empty_token_panics mock_refused (TidalCredentials.new "some_token")
             "myuser@example.com" "pw" []). discriminate.
Defined.

(** C3: on a 2xx response the exchanger returns the body deserialised as a
    [Session] (keys userId, sessionId, countryCode); on the crate's mock
    200 response, [create_session] yields the session 123 /
    "session-id-123" / "US". *)
Theorem fetch_session_success_decodes :
  (forall send tok payload lg r j,
     send (Session.login_request tok payload) = Ok r ->
     is_success (resp_status r) = true ->
     resp_body r = BodyJson j ->
     Session.fetch_session_data send tok payload lg =
     Returned (match deserialize_session j with
               | Ok s => Ok s
               | Err e => Err (AuthRequestFailed (DecodeError e))
               end) (lg ++ [LogDebugResponse (resp_status r) (resp_url r)])) /\
  (forall u sid cc, in_i32 u = true ->
     deserialize_session
       (JObj [("userId", JInt u); ("sessionId", JStr sid); ("countryCode", JStr cc)])
     = Ok {| user_id := u; session_id := sid; country_code := cc |}) /\
  (exists lg, TidalCredentials.create_session (mock_login 200 success_body)
     (TidalCredentials.new "some_token") "myuser@example.com" "pw" []
   = Returned {| token := "some_token";
                 session := Some {| user_id := 123; session_id := "session-id-123";
                                    country_code := "US" |} |} lg).
Proof.
  split; [|split].
  - intros send tok payload lg r j Hs Hok Hb.
    rewrite (fetch_2xx send tok payload lg r Hs Hok).
    unfold response_json. rewrite Hb.
    destruct (deserialize_session j); reflexivity.
  - exact deserialize_session_fields.
  - eexists. vm_compute. reflexivity.
Qed.

Lemma fetch_session_success_decodes_witness :
  Session.fetch_session_data (mock_login 200 success_body) "some_token" ∅ []
  = Returned (Ok {| user_id := 123; session_id := "session-id-123"; country_code := "US" |})
      [LogDebugResponse 200 "http://127.0.0.1:1234/?token=some_token"].
Proof.
  rewrite (proj1 fetch_session_success_decodes (mock_login 200 success_body)
             "some_token" ∅ [] _ success_body eq_refl eq_refl eq_refl).
  reflexivity.
Defined.

(** C4: on a non-2xx response the exchanger returns [CreateSessionFailed]
    whatever the body (it is not read); its only effect is the two error
    diagnostics, logged before it returns. *)
Theorem fetch_session_rejected send tok payload lg status url b :
  send (Session.login_request tok payload) =
    Ok {| resp_status := status; resp_url := url; resp_body := b |} ->
  is_success status = false ->
  Session.fetch_session_data send tok payload lg =
  Returned (Err CreateSessionFailed)
    (lg ++ [LogErrorCreateSession tok payload; LogErrorResponse status url]).
Proof. intros Hs Hok. exact (fetch_non_2xx send tok payload lg _ Hs Hok). Qed.

Lemma fetch_session_rejected_witness :
  Session.fetch_session_data (mock_login 401 failure_body) "some_token" ∅ []
  = Returned (Err CreateSessionFailed)
      [LogErrorCreateSession "some_token" ∅;
       LogErrorResponse 401 "http://127.0.0.1:1234/?token=some_token"].
Proof.
  apply (fetch_session_rejected (mock_login 401 failure_body) "some_token" ∅ [] 401
           "http://127.0.0.1:1234/?token=some_token" (BodyJson failure_body));
    reflexivity.
Defined.

(** C5: a transport failure of [send], and a failure of reading or
    decoding the body, come back from the exchanger as [AuthRequestFailed]
    carrying that [reqwest_error]; [CreateSessionFailed] only comes from a
    response that was received with a non-2xx status. *)
Theorem fetch_session_transport_errors send tok payload lg :
  (forall e, send (Session.login_request tok payload) = Err e ->
     Session.fetch_session_data send tok payload lg =
     Returned (Err (AuthRequestFailed e)) lg) /\
  (forall r e, send (Session.login_request tok payload) = Ok r ->
     is_success (resp_status r) = true ->
     response_json r = Err e ->
     Session.fetch_session_data send tok payload lg =
     Returned (Err (AuthRequestFailed e))
       (lg ++ [LogDebugResponse (resp_status r) (resp_url r)])) /\
  (forall lg', Session.fetch_session_data send tok payload lg =
     Returned (Err CreateSessionFailed) lg' ->
     exists r, send (Session.login_request tok payload) = Ok r /\
               is_success (resp_status r) = false).
Proof.
  split; [|split].
  - intros e Hs. exact (fetch_send_err send tok payload lg e Hs).
  - intros r e Hs Hok Hj. rewrite (fetch_2xx send tok payload lg r Hs Hok), Hj.
    reflexivity.
  - intros lg' Hf.
    destruct (send (Session.login_request tok payload)) as [r|e] eqn:Hs.
    + destruct (is_success (resp_status r)) eqn:Hok; [|eauto].
      rewrite (fetch_2xx send tok payload lg r Hs Hok) in Hf.
      destruct (response_json r); discriminate.
    + rewrite (fetch_send_err send tok payload lg e Hs) in Hf. discriminate.
Qed.

Lemma fetch_session_transport_errors_witness :
  Session.fetch_session_data mock_refused "some_token" ∅ []
    = Returned (Err (AuthRequestFailed (TransportError ConnectionRefused))) [] /\
  Session.fetch_session_data
    (fun _ => Ok {| resp_status := 200; resp_url := "u";
                    resp_body := BodyReadFailed Timeout |}) "some_token" ∅ []
    = Returned (Err (AuthRequestFailed (TransportError Timeout)))
        [LogDebugResponse 200 "u"] /\
  exists r, mock_login 401 failure_body (Session.login_request "some_token" ∅) = Ok r /\
            is_success (resp_status r) = false.
Proof.
  split; [|split].
  - apply (proj1 (fetch_session_transport_errors mock_refused "some_token" ∅ [])).
    reflexivity.
  - apply (proj1 (proj2 (fetch_session_transport_errors
      (fun _ => Ok {| resp_status := 200; resp_url := "u";
                      resp_body := BodyReadFailed Timeout |}) "some_token" ∅ []))
      {| resp_status := 200; resp_url := "u"; resp_body := BodyReadFailed Timeout |}
      (TransportError Timeout)); reflexivity.
  - apply (proj2 (proj2 (fetch_session_transport_errors
      (mock_login 401 failure_body) "some_token" ∅ []))
      [LogErrorCreateSession "some_token" ∅;
       LogErrorResponse 401 "http://127.0.0.1:1234/?token=some_token"]).
    reflexivity.
Defined.

(** C6: a [Session] returned by the exchanger has all three fields read
    from a 2xx JSON body (and an [i32] user id); a 2xx body that is not
    JSON, or an object lacking one of the three keys, gives a request-layer
    decode error. *)
Theorem fetch_session_no_partial send tok payload lg :
  (forall s lg', Session.fetch_session_data send tok payload lg = Returned (Ok s) lg' ->
     exists r j, send (Session.login_request tok payload) = Ok r /\
       is_success (resp_status r) = true /\ resp_body r = BodyJson j /\
       populated_from j s /\ session_wf s = true) /\
  (forall r, send (Session.login_request tok payload) = Ok r ->
     is_success (resp_status r) = true ->
     (resp_body r = BodyInvalidJson \/
      exists fs, resp_body r = BodyJson (JObj fs) /\
        (assoc "userId" fs = None \/ assoc "sessionId" fs = None \/
         assoc "countryCode" fs = None)) ->
     exists e lg', Session.fetch_session_data send tok payload lg =
                   Returned (Err (AuthRequestFailed (DecodeError e))) lg').
Proof.
  split.
  - intros s lg' Hf.
    destruct (send (Session.login_request tok payload)) as [r|e] eqn:Hs.
    + destruct (is_success (resp_status r)) eqn:Hok.
      * rewrite (fetch_2xx send tok payload lg r Hs Hok) in Hf.
        unfold response_json in Hf.
        destruct (resp_body r) as [j| |k] eqn:Hb; try discriminate.
        destruct (deserialize_session j) as [s'|] eqn:Hd; [|discriminate].
        inversion Hf; subst.
        apply deserialize_session_ok in Hd as [Hp Hw]. eauto 10.
      * rewrite (fetch_non_2xx send tok payload lg r Hs Hok) in Hf. discriminate.
    + rewrite (fetch_send_err send tok payload lg e Hs) in Hf. discriminate.
  - intros r Hs Hok Hbody.
    rewrite (fetch_2xx send tok payload lg r Hs Hok).
    unfold response_json.
    destruct Hbody as [Hb|(fs & Hb & Hmiss)]; rewrite Hb; [eauto|].
    destruct (deserialize_session (JObj fs)) as [s|e] eqn:Hd; [|eauto].
    exfalso. apply deserialize_session_ok in Hd as [(Hu & Hsid & Hcc) _].
    destruct Hmiss as [H|[H|H]]; congruence.
Qed.

Lemma fetch_session_no_partial_witness :
  (exists r j, mock_login 200 success_body (Session.login_request "some_token" ∅) = Ok r /\
     is_success (resp_status r) = true /\ resp_body r = BodyJson j /\
     populated_from j {| user_id := 123; session_id := "session-id-123";
                         country_code := "US" |} /\
     session_wf {| user_id := 123; session_id := "session-id-123";
                   country_code := "US" |} = true) /\
  exists e lg', Session.fetch_session_data
    (mock_login 200 (JObj [("userId", JInt 123); ("sessionId", JStr "x")]))
    "some_token" ∅ [] = Returned (Err (AuthRequestFailed (DecodeError e))) lg'.
Proof.
  split.
  - apply (proj1 (fetch_session_no_partial (mock_login 200 success_body) "some_token" ∅ [])
             _ [LogDebugResponse 200 "http://127.0.0.1:1234/?token=some_token"]).
    reflexivity.
  - apply (proj2 (fetch_session_no_partial
             (mock_login 200 (JObj [("userId", JInt 123); ("sessionId", JStr "x")]))
             "some_token" ∅ []) _ eq_refl eq_refl).
    right. exists [("userId", JInt 123); ("sessionId", JStr "x")].
    split; [reflexivity|]. right. right. reflexivity.
Defined.

(** C7: [session] builds a new [TidalCredentials] whose session is the
    given one and whose token is the input's token; it reads its input and
    nothing else, so results for different sessions share only the token. *)
Theorem session_replaces_session c s :
  TidalCredentials.session c s = {| token := token c; session := s |} /\
  token (TidalCredentials.session c s) = token c /\
  session (TidalCredentials.session c s) = s.
Proof. repeat split. Qed.

(** C8: decoding the serialised form of a [Session] gives it back. *)
Theorem session_json_roundtrip s :
  session_wf s = true ->
  deserialize_session (serialize_session s) = Ok s.
Proof.
  destruct s as [u sid cc]. unfold session_wf. simpl. intros H.
  exact (deserialize_session_fields u sid cc H).
Qed.

Lemma session_json_roundtrip_witness :
  deserialize_session (serialize_session
    {| user_id := -2147483648; session_id := "xq123"; country_code := "US" |})
  = Ok {| user_id := -2147483648; session_id := "xq123"; country_code := "US" |}.
Proof. apply session_json_roundtrip. reflexivity. Defined.

(** C9: [new] accepts every token, the empty one included, keeps it, and
    leaves the session absent. *)
Theorem new_keeps_token t :
  TidalCredentials.new t = {| token := t; session := None |} /\
  token (TidalCredentials.new t) = t /\
  session (TidalCredentials.new t) = None.
Proof. repeat split. Qed.

(** C10: whatever the exchange gives, the credentials returned by
    [create_session] on a non-empty token carry the input's token. *)
Theorem create_session_keeps_token send c username password lg c' lg' :
  token c <> "" ->
  TidalCredentials.create_session send c username password lg = Returned c' lg' ->
  token c' = token c.
Proof.
  intros Ht Hc.
  destruct (create_session_returns send c username password lg Ht) as (r & lg'' & _ & Hr).
  rewrite Hr in Hc. inversion Hc. reflexivity.
Qed.

Lemma create_session_keeps_token_witness :
  "some_token" <> "" /\
  TidalCredentials.create_session mock_refused (TidalCredentials.new "some_token")
    "myuser@example.com" "pw" [] = Returned {| token := "some_token"; session := None |} [] /\
  token {| token := "some_token"; session := None |} =
  token (TidalCredentials.new "some_token").
Proof.
  split; [discriminate|]. split; [reflexivity|].
  apply (create_session_keeps_token mock_refused (TidalCredentials.new "some_token")
           "myuser@example.com" "pw" [] _ []).
  - discriminate.
  - reflexivity.
Defined.

(** ** Further properties of the code *)

Lemma values_of_cons k k' v rest :
  values_of k ((k', v) :: rest) =
  if String.eqb k' k then v :: values_of k rest else values_of k rest.
Proof. unfold values_of. simpl. destruct (String.eqb k' k); reflexivity. Qed.

Lemma deserialize_i32_spec v x :
  deserialize_i32 v = Ok x <-> v = JInt x /\ in_i32 x = true.
Proof.
  split; [apply deserialize_i32_ok|].
  intros [-> H]. simpl. rewrite H. reflexivity.
Qed.

Lemma deserialize_string_spec v x : deserialize_string v = Ok x <-> v = JStr x.
Proof. split; [apply deserialize_string_ok | intros ->; reflexivity]. Qed.

Lemma acc_i32_cons_none v vs x :
  acc_i32 None (v :: vs) x <-> deserialize_i32 v = Ok x /\ vs = [].
Proof.
  simpl. rewrite deserialize_i32_spec.
  split; [intros [H Hx]; inversion H; auto | intros [[-> Hx] ->]; auto].
Qed.

Lemma acc_string_cons_none v vs x :
  acc_string None (v :: vs) x <-> deserialize_string v = Ok x /\ vs = [].
Proof.
  simpl. rewrite deserialize_string_spec.
  split; [intros H; inversion H; auto | intros [-> ->]; auto].
Qed.

Ltac visit_field IH spec :=
  let x := fresh "x" in
  let Hv := fresh "Hv" in
  match goal with
  | |- context [ match ?acc with Some _ => _ | None => _ end ] =>
      destruct acc as [y|];
      [ simpl; split; [discriminate | intros (? & ? & ?); intuition discriminate]
      | match goal with
        | |- context [ match ?d with Ok _ => _ | Err _ => _ end ] =>
            destruct d as [x|e] eqn:Hv;
            [ rewrite IH, spec, Hv; simpl; intuition congruence
            | rewrite spec, Hv; split; [discriminate | intuition discriminate] ]
        end ]
  end.

(** Decoding an object as a [Session] succeeds exactly when each of the
    three keys occurs once (with the accumulated ones not again), with a
    value of the right type; other keys do not matter. *)
Lemma visit_map_iff fs :
  forall u sid cc s,
  visit_map fs u sid cc = Ok s <->
  acc_i32 u (values_of "userId" fs) (user_id s) /\
  acc_string sid (values_of "sessionId" fs) (session_id s) /\
  acc_string cc (values_of "countryCode" fs) (country_code s).
Proof.
  induction fs as [|[k v] rest IH]; intros u sid cc s.
  - destruct s as [x y w].
    destruct u, sid, cc; simpl; split;
      try discriminate; try (intros (? & ? & ?); intuition discriminate).
    + intros H; inversion H; subst; auto.
    + intros ([_ ->] & [_ ->] & [_ ->]). reflexivity.
  - simpl visit_map. rewrite !values_of_cons.
    destruct (String.eqb_spec k "userId") as [->|Hk1]; simpl String.eqb.
    + visit_field IH acc_i32_cons_none.
    + destruct (String.eqb_spec k "sessionId") as [->|Hk2]; simpl String.eqb.
      * visit_field IH acc_string_cons_none.
      * destruct (String.eqb_spec k "countryCode") as [->|Hk3]; simpl String.eqb.
        -- visit_field IH acc_string_cons_none.
        -- rewrite IH. reflexivity.
Qed.

Lemma values_of_perm k fs fs' :
  Permutation fs fs' -> Permutation (values_of k fs) (values_of k fs').
Proof.
  induction 1 as [|[k1 v1] l l' _ IH|[k1 v1] [k2 v2] l|l l' l'' _ IH1 _ IH2].
  - constructor.
  - rewrite !values_of_cons. destruct (String.eqb k1 k); [constructor|]; exact IH.
  - rewrite !values_of_cons.
    destruct (String.eqb k1 k), (String.eqb k2 k); try constructor; reflexivity.
  - etransitivity; eauto.
Qed.

(** X1: a JSON object decodes to a [Session] exactly when each of
    userId, sessionId, countryCode occurs exactly once, with an [i32]
    number, a string and a string; the session carries those values. *)
Theorem deserialize_session_object_iff fs s :
  deserialize_session (JObj fs) = Ok s <->
  values_of "userId" fs = [JInt (user_id s)] /\ in_i32 (user_id s) = true /\
  values_of "sessionId" fs = [JStr (session_id s)] /\
  values_of "countryCode" fs = [JStr (country_code s)].
Proof.
  simpl. rewrite visit_map_iff. simpl. intuition.
Qed.

(** X2: the order of the keys of a session object does not matter. *)
Theorem deserialize_session_key_order fs fs' s :
  Permutation fs fs' ->
  deserialize_session (JObj fs) = Ok s ->
  deserialize_session (JObj fs') = Ok s.
Proof.
  intros Hp. rewrite !deserialize_session_object_iff.
  intros (Hu & Hw & Hs & Hc). repeat split; [| exact Hw | |].
  - apply Permutation_length_1_inv. rewrite <- Hu. apply values_of_perm, Hp.
  - apply Permutation_length_1_inv. rewrite <- Hs. apply values_of_perm, Hp.
  - apply Permutation_length_1_inv. rewrite <- Hc. apply values_of_perm, Hp.
Qed.

Lemma deserialize_session_key_order_witness :
  Permutation [("userId", JInt 123); ("sessionId", JStr "session-id-123");
               ("countryCode", JStr "US")]
              [("countryCode", JStr "US"); ("userId", JInt 123);
               ("sessionId", JStr "session-id-123")] /\
  deserialize_session success_body =
    Ok {| user_id := 123; session_id := "session-id-123"; country_code := "US" |} /\
  deserialize_session (JObj [("countryCode", JStr "US"); ("userId", JInt 123);
                             ("sessionId", JStr "session-id-123")]) =
    Ok {| user_id := 123; session_id := "session-id-123"; country_code := "US" |}.
Proof.
  assert (Hp : Permutation [("userId", JInt 123); ("sessionId", JStr "session-id-123");
                            ("countryCode", JStr "US")]
                           [("countryCode", JStr "US"); ("userId", JInt 123);
                            ("sessionId", JStr "session-id-123")]).
  { etransitivity; [apply Permutation_cons_append|]. simpl.
    etransitivity; [apply Permutation_cons_append|]. reflexivity. }
  split; [exact Hp|]. split; [reflexivity|].
  apply (deserialize_session_key_order _ _ _ Hp). reflexivity.
Defined.

(** X3: a key other than userId, sessionId and countryCode is skipped,
    whatever its value and position: the outcome, success or error, is
    the one without it. *)
Theorem deserialize_session_ignores_unknown_key fs1 k v fs2 :
  k <> "userId" -> k <> "sessionId" -> k <> "countryCode" ->
  deserialize_session (JObj (fs1 ++ (k, v) :: fs2)) =
  deserialize_session (JObj (fs1 ++ fs2)).
Proof.
  intros H1 H2 H3. simpl.
  cut (forall u sid cc, visit_map (fs1 ++ (k, v) :: fs2) u sid cc =
                        visit_map (fs1 ++ fs2) u sid cc); [intros H; apply H|].
  induction fs1 as [|[k' v'] rest IH]; intros u sid cc; simpl.
  - destruct (String.eqb_spec k "userId"); [contradiction|].
    destruct (String.eqb_spec k "sessionId"); [contradiction|].
    destruct (String.eqb_spec k "countryCode"); [contradiction|].
    reflexivity.
  - destruct (String.eqb k' "userId");
      [destruct u; [reflexivity|]; destruct (deserialize_i32 v'); auto|].
    destruct (String.eqb k' "sessionId");
      [destruct sid; [reflexivity|]; destruct (deserialize_string v'); auto|].
    destruct (String.eqb k' "countryCode");
      [destruct cc; [reflexivity|]; destruct (deserialize_string v'); auto|].
    auto.
Qed.

Lemma deserialize_session_ignores_unknown_key_witness :
  deserialize_session (JObj ([("userId", JInt 7)] ++ ("status", JInt 401) ::
                             [("sessionId", JStr "s"); ("countryCode", JStr "NO")])) =
  deserialize_session (JObj ([("userId", JInt 7)] ++
                             [("sessionId", JStr "s"); ("countryCode", JStr "NO")])).
Proof.
  apply deserialize_session_ignores_unknown_key; discriminate.
Defined.

(** X4: a JSON array decodes to a [Session] exactly when it has three
    elements: an [i32] number, a string and a string, in field order. *)
Theorem deserialize_session_array_iff l s :
  deserialize_session (JArr l) = Ok s <->
  l = [JInt (user_id s); JStr (session_id s); JStr (country_code s)] /\
  in_i32 (user_id s) = true.
Proof.
  simpl. split; [apply visit_seq_ok|].
  intros [-> H]. destruct s as [u sid cc]. simpl in *. rewrite H. reflexivity.
Qed.

Lemma visit_map_credentials_token fs :
  forall tok sess c, visit_map_credentials fs tok sess = Ok c ->
  (tok = None /\ assoc "token" fs = Some (JStr (token c))) \/ tok = Some (token c).
Proof.
  induction fs as [|[k v] rest IH]; intros tok sess c H.
  - destruct tok, sess; simpl in H; try discriminate; inversion H; subst; auto.
  - simpl in H. destruct (String.eqb_spec k "token") as [->|Hk].
    + destruct tok; [discriminate|].
      destruct (deserialize_string v) as [t|] eqn:Hv; [|discriminate].
      apply deserialize_string_ok in Hv as ->.
      destruct (IH _ _ _ H) as [(? & _)|Ht]; [discriminate|].
      inversion Ht; subst. left. simpl. auto.
    + rewrite assoc_skip by exact Hk.
      destruct (String.eqb_spec k "session").
      * destruct sess; [discriminate|].
        destruct (deserialize_option_session v); [|discriminate]. eauto.
      * eauto.
Qed.

Lemma visit_map_credentials_session fs :
  forall tok sess c, visit_map_credentials fs tok sess = Ok c ->
  assoc "session" fs = None ->
  session c = match sess with None => None | Some s => s end.
Proof.
  induction fs as [|[k v] rest IH]; intros tok sess c H Hn.
  - destruct tok, sess; simpl in H; try discriminate; inversion H; subst; reflexivity.
  - simpl in H. destruct (String.eqb_spec k "session") as [->|Hk].
    + simpl in Hn. discriminate.
    + rewrite assoc_skip in Hn by exact Hk.
      destruct (String.eqb_spec k "token").
      * destruct tok; [discriminate|].
        destruct (deserialize_string v); [|discriminate]. eauto.
      * eauto.
Qed.

(** X5: serialising [TidalCredentials] (keys token and session, a missing
    session as null) and decoding the result gives the same credentials. *)
Theorem credentials_json_roundtrip c :
  credentials_wf c = true ->
  deserialize_credentials (serialize_credentials c) = Ok c.
Proof.
  destruct c as [t [[u sid cc]|]]; unfold credentials_wf, session_wf; simpl;
    intros H; [rewrite H|]; reflexivity.
Qed.

Lemma credentials_json_roundtrip_witness :
  deserialize_credentials (serialize_credentials
    {| token := "some_token";
       session := Some {| user_id := 1234; session_id := "xq123"; country_code := "US" |} |})
  = Ok {| token := "some_token";
          session := Some {| user_id := 1234; session_id := "xq123"; country_code := "US" |} |}.
Proof. apply credentials_json_roundtrip. reflexivity. Defined.

(** X6: credentials decoded from a JSON object take their token from the
    object's token key, which must be there; an object without a session
    key decodes to credentials without a session. *)
Theorem deserialize_credentials_object fs c :
  deserialize_credentials (JObj fs) = Ok c ->
  assoc "token" fs = Some (JStr (token c)) /\
  (assoc "session" fs = None -> session c = None).
Proof.
  simpl. intros H. split.
  - destruct (visit_map_credentials_token _ _ _ _ H) as [(_ & Ht)|]; [exact Ht|discriminate].
  - intros Hn. exact (visit_map_credentials_session _ _ _ _ H Hn).
Qed.

Lemma deserialize_credentials_object_witness :
  deserialize_credentials (JObj [("token", JStr "some_token"); ("extra", JNull)]) =
    Ok (TidalCredentials.new "some_token") /\
  assoc "token" [("token", JStr "some_token"); ("extra", JNull)] =
    Some (JStr (token (TidalCredentials.new "some_token"))) /\
  (assoc "session" [("token", JStr "some_token"); ("extra", JNull)] = None ->
   session (TidalCredentials.new "some_token") = None).
Proof.
  assert (H : deserialize_credentials (JObj [("token", JStr "some_token"); ("extra", JNull)]) =
              Ok (TidalCredentials.new "some_token")) by reflexivity.
  split; [exact H|].
  exact (deserialize_credentials_object _ _ H).
Defined.

Lemma get_session_form send tok username password :
  Session.get_session send tok username password =
  Session.fetch_session_data send tok (login_form username password).
Proof. reflexivity. Qed.



(** X8: [get_session] only appends to the log, and the appended entries
    record the token together with the form holding the username and the
    password in plaintext exactly when it returns [CreateSessionFailed]
    (a response with a non-2xx status). *)
Theorem get_session_logs_credentials send tok username password lg o lg' :
  Session.get_session send tok username password lg = Returned o lg' ->
  exists new, lg' = lg ++ new /\
    ((exists form, In (LogErrorCreateSession tok form) new /\
                   form !! "username" = Some username /\
                   form !! "password" = Some password)
     <-> o = Err CreateSessionFailed).
Proof.
  rewrite get_session_form. intros Hf.
  destruct (send (Session.login_request tok (login_form username password)))
    as [r|e] eqn:Hs.
  - destruct (is_success (resp_status r)) eqn:Hok.
    + rewrite (fetch_2xx _ _ _ _ _ Hs Hok) in Hf. inversion Hf; subst.
      eexists; split; [reflexivity|]. split.
      * intros (form & Hin & _). simpl in Hin. intuition discriminate.
      * destruct (response_json r); discriminate.
    + rewrite (fetch_non_2xx _ _ _ _ _ Hs Hok) in Hf. inversion Hf; subst.
      eexists; split; [reflexivity|]. split; [reflexivity|]. intros _.
      exists (login_form username password). split; [left; reflexivity|].
      unfold login_form. split.
      * rewrite lookup_insert_ne by discriminate. apply lookup_insert_eq.
      * apply lookup_insert_eq.
  - rewrite (fetch_send_err _ _ _ _ _ Hs) in Hf. inversion Hf; subst.
    exists []. split; [symmetry; apply app_nil_r|]. split.
    + intros (form & Hin & _). destruct Hin.
    + discriminate.
Qed.

Lemma get_session_logs_credentials_witness :
  exists new,
    [LogErrorCreateSession "some_token" (login_form "myuser@example.com" "somepawssowrd");
     LogErrorResponse 401 "http://127.0.0.1:1234/?token=some_token"] = [] ++ new /\
    ((exists form, In (LogErrorCreateSession "some_token" form) new /\
                   form !! "username" = Some "myuser@example.com" /\
                   form !! "password" = Some "somepawssowrd")
     <-> @Err Session AuthError CreateSessionFailed = Err CreateSessionFailed).
Proof.
  apply (get_session_logs_credentials (mock_login 401 failure_body) "some_token"
           "myuser@example.com" "somepawssowrd" [] (Err CreateSessionFailed)).
  reflexivity.
Defined.
